(** * A shallow embedding of [src/perceptron.py] (class [Perceptron]).

    Numbers of the source ([float] and [int], mixed freely) are modelled
    as exact rationals [Q]; the comparisons [z > 0] and [error != 0] of the
    source become [Qcompare] and [Qeq_bool].  Python exceptions are the
    [Error] branch of a small error monad; the state reached before an
    exception is not kept.  The draws of [random.random()] made by one call
    of [fit] are an explicit argument [rand : nat -> Q] (the [k]-th draw). *)

From Stdlib Require Import QArith ZArith List Lia Bool.
Import ListNotations.

(** ** Exceptions and the error monad *)

(** [IndexError], [AttributeError] and [TypeError] are the Python
    exceptions the source can raise; [InvalidInput] and [NotTrained] are
    the error kinds named by the design document, so that statements about
    them can be written down. *)
Inductive exn : Type :=
| IndexError
| AttributeError
| TypeError
| InvalidInput
| NotTrained.

Inductive result (A : Type) : Type :=
| Ok (a : A)
| Error (e : exn).
Arguments Ok {A} a.
Arguments Error {A} e.

Definition bind {A B : Type} (m : result A) (k : A -> result B) : result B :=
  match m with
  | Ok a => k a
  | Error e => Error e
  end.

Notation "'let*' x ':=' m 'in' k" := (bind m (fun x => k))
  (at level 200, x ident, m at level 100, k at level 200).

(** Python's [l[i]] for [0 <= i]. *)
Definition index {A : Type} (l : list A) (i : nat) : result A :=
  match nth_error l i with
  | Some a => Ok a
  | None => Error IndexError
  end.

(** Python's [l[j] = v] for an index [j] already checked to be in range. *)
Fixpoint list_set {A : Type} (l : list A) (j : nat) (v : A) : list A :=
  match l, j with
  | [], _ => []
  | _ :: l', O => v :: l'
  | a :: l', S j' => a :: list_set l' j' v
  end.

(** ** The class [Perceptron] *)

Record Perceptron : Type := mkPerceptron {
  lr : Q;
  n_iters : Z;
  _iterations : nat;
  weights : option (list Q)   (* [None]: attribute [weights] not yet set *)
}.

(** [__init__(self, learning_rate, n_iters)] *)
Definition __init__ (learning_rate : Q) (n : Z) : Perceptron :=
  mkPerceptron learning_rate n 0 None.

(** The property [iterations]. *)
Definition iterations (self : Perceptron) : nat := self.(_iterations).

Definition set_weights (self : Perceptron) (w : list Q) : Perceptron :=
  mkPerceptron self.(lr) self.(n_iters) self.(_iterations) (Some w).

Definition set_iterations (self : Perceptron) (k : nat) : Perceptron :=
  mkPerceptron self.(lr) self.(n_iters) k self.(weights).

(** Reading [self.weights]. *)
Definition get_weights (self : Perceptron) : result (list Q) :=
  match self.(weights) with
  | Some w => Ok w
  | None => Error AttributeError
  end.

(** [_activation]: [1 if z > 0 else -1]. *)
Definition _activation (z : Q) : Q :=
  match z ?= 0 with
  | Gt => 1
  | _ => -1
  end.

(** [sum(X[i] * self.weights[i] for i in range(len(X)))]: the generator
    reads [self.weights] only when an element is produced, and [sum]
    starts from [0] and adds from the left. *)
Fixpoint weighted_sum (self : Perceptron) (X : list Q) (i : nat) (acc : Q)
  : result Q :=
  match X with
  | [] => Ok acc
  | xi :: X' =>
      let* w := get_weights self in
      let* wi := index w i in
      weighted_sum self X' (S i) (acc + xi * wi)
  end.

(** [predict(self, X)] *)
Definition predict (self : Perceptron) (X : list Q) : result Q :=
  let* z := weighted_sum self X 0 0 in
  Ok (_activation z).

(** [for j in range(len(X[i])): self.weights[j] += self.lr * error * X[i][j]],
    with [xs] the part of [X[i]] from index [j] on. *)
Fixpoint update_row (self : Perceptron) (xs : list Q) (j : nat) (error : Q)
  : result Perceptron :=
  match xs with
  | [] => Ok self
  | xj :: xs' =>
      let* w := get_weights self in
      let* wj := index w j in
      update_row (set_weights self (list_set w j (wj + self.(lr) * error * xj)))
        xs' (S j) error
  end.

(** The loop [for i in range(len(X))] of [_update_weights], with [X] the
    samples from index [i] on and [all_ok] the variable
    [all_classified_correctly]. *)
Fixpoint update_loop (self : Perceptron) (X : list (list Q)) (y : list Q)
  (i : nat) (all_ok : bool) : result (Perceptron * bool) :=
  match X with
  | [] => Ok (self, all_ok)
  | xi :: X' =>
      let* y_hat := predict self xi in
      let* yi := index y i in
      let error := yi - y_hat in
      if negb (Qeq_bool error 0) then
        let* self' := update_row self xi 0 error in
        update_loop self' X' y (S i) false
      else update_loop self X' y (S i) all_ok
  end.

(** [_update_weights(self, X, y)]: returns [not all_classified_correctly]. *)
Definition _update_weights (self : Perceptron) (X : list (list Q)) (y : list Q)
  : result (Perceptron * bool) :=
  let* r := update_loop self X y 0 true in
  Ok (fst r, negb (snd r)).

(** [for _ in range(k): self._iterations += 1; if not self._update_weights(X, y): break] *)
Fixpoint fit_loop (k : nat) (self : Perceptron) (X : list (list Q)) (y : list Q)
  : result Perceptron :=
  match k with
  | O => Ok self
  | S k' =>
      let self1 := set_iterations self (S self.(_iterations)) in
      let* r := _update_weights self1 X y in
      if snd r then fit_loop k' (fst r) X y else Ok (fst r)
  end.

(** [X = [[1] + x for x in X]] *)
Definition augment (X : list (list Q)) : list (list Q) :=
  map (fun x => 1 :: x) X.

(** [self.weights = [random.random() for _ in range(len(x0) + 1)]] followed
    by [self._iterations = 0]. *)
Definition fit_init (rand : nat -> Q) (self : Perceptron) (x0 : list Q)
  : Perceptron :=
  mkPerceptron self.(lr) self.(n_iters) 0
    (Some (map rand (seq 0 (length x0 + 1)))).

(** [fit(self, X, y)]; [range(self.n_iters)] is empty when [n_iters <= 0]. *)
Definition fit (rand : nat -> Q) (self : Perceptron) (X : list (list Q))
  (y : list Q) : result Perceptron :=
  let* x0 := index X 0 in
  fit_loop (Z.to_nat self.(n_iters)) (fit_init rand self x0) (augment X) y.

(** ** Specification-side helpers *)

(** Epochs run unconditionally, collecting the value returned by each
    [_update_weights] call (true: a sample was misclassified). *)
Fixpoint run_epochs (k : nat) (self : Perceptron) (X : list (list Q))
  (y : list Q) : result (Perceptron * list bool) :=
  match k with
  | O => Ok (self, [])
  | S k' =>
      let self1 := set_iterations self (S self.(_iterations)) in
      let* r := _update_weights self1 X y in
      let* r' := run_epochs k' (fst r) X y in
      Ok (fst r', snd r :: snd r')
  end.

(** [z = sum X[i] * weight[i]] over the aligned indices. *)
Fixpoint sum_prod (X w : list Q) : Q :=
  match X, w with
  | x :: X', wi :: w' => x * wi + sum_prod X' w'
  | _, _ => 0
  end.

(** Pointwise [w_j + c * x_j]. *)
Fixpoint add_scaled (w : list Q) (c : Q) (x : list Q) : list Q :=
  match w, x with
  | wj :: w', xj :: x' => (wj + c * xj) :: add_scaled w' c x'
  | _, _ => w
  end.

(** A concrete random source for examples. *)
Definition rand0 (k : nat) : Q := inject_Z (Z.of_nat k) / 4.

(** [self.weights] is set and has [n] entries. *)
Definition wlen (n : nat) (self : Perceptron) : Prop :=
  exists w, self.(weights) = Some w /\ length w = n.


Example predict_ex :
  predict (set_weights (__init__ (1#10) 5) [0; 1; -1]) [1; 2; 2] = Ok (-1).
Proof. reflexivity. Qed.

Example fit_ex :
  option_map iterations
    (match fit rand0 (__init__ (1#10) 10) [[2;2];[-2;-2]] [1;-1] with
     | Ok s => Some s | Error _ => None end) = Some 1%nat.
Proof. vm_compute. reflexivity. Qed.

(** Configuration and counter unchanged. *)
Definition same_cfg (s s' : Perceptron) : Prop :=
  s'.(lr) = s.(lr) /\ s'.(n_iters) = s.(n_iters) /\ s'.(_iterations) = s.(_iterations).

(** ** [fit] over a store of Python list objects

    To speak about the caller's lists, this second embedding of the same
    methods keeps every Python list in a store [heap] (a list of objects,
    addressed by position) and passes list arguments by reference, as
    Python does.  A list element is a number or a reference to another
    list. *)
Module Heap.

Inductive val : Type :=
| VNum (q : Q)
| VRef (l : nat).

Definition heap : Type := list (list val).

(** Reading an object; a reference held by the program is always valid. *)
Definition load (h : heap) (l : nat) : result (list val) := index h l.

(** A fresh list object. *)
Definition alloc (h : heap) (o : list val) : nat * heap := (length h, h ++ [o]).

Definition store (h : heap) (l : nat) (o : list val) : heap := list_set h l o.

Definition as_num (v : val) : result Q :=
  match v with VNum q => Ok q | VRef _ => Error TypeError end.

Definition as_ref (v : val) : result nat :=
  match v with VRef l => Ok l | VNum _ => Error TypeError end.

Record Perceptron : Type := mkPerceptron {
  lr : Q;
  n_iters : Z;
  _iterations : nat;
  weights : option nat   (* reference to the list [self.weights] *)
}.

Definition set_iterations (self : Perceptron) (k : nat) : Perceptron :=
  mkPerceptron self.(lr) self.(n_iters) k self.(weights).

Definition get_weights (self : Perceptron) : result nat :=
  match self.(weights) with
  | Some l => Ok l
  | None => Error AttributeError
  end.

Fixpoint weighted_sum (self : Perceptron) (h : heap) (X : list val) (i : nat)
  (acc : Q) : result Q :=
  match X with
  | [] => Ok acc
  | xv :: X' =>
      let* xi := as_num xv in
      let* wl := get_weights self in
      let* w := load h wl in
      let* wv := index w i in
      let* wi := as_num wv in
      weighted_sum self h X' (S i) (acc + xi * wi)
  end.

Definition predict (self : Perceptron) (h : heap) (Xl : nat) : result Q :=
  let* X := load h Xl in
  let* z := weighted_sum self h X 0 0 in
  Ok (_activation z).

(** [self.weights[j] += self.lr * error * X[i][j]] writes into the list
    object [self.weights]. *)
Fixpoint update_row (self : Perceptron) (h : heap) (xs : list val) (j : nat)
  (error : Q) : result heap :=
  match xs with
  | [] => Ok h
  | xv :: xs' =>
      let* xj := as_num xv in
      let* wl := get_weights self in
      let* w := load h wl in
      let* wv := index w j in
      let* wj := as_num wv in
      update_row self (store h wl (list_set w j (VNum (wj + self.(lr) * error * xj))))
        xs' (S j) error
  end.

Fixpoint update_loop (self : Perceptron) (h : heap) (X : list val) (yl : nat)
  (i : nat) (all_ok : bool) : result (heap * bool) :=
  match X with
  | [] => Ok (h, all_ok)
  | xv :: X' =>
      let* xl := as_ref xv in
      let* y_hat := predict self h xl in
      let* ys := load h yl in
      let* yv := index ys i in
      let* yi := as_num yv in
      let error := yi - y_hat in
      if negb (Qeq_bool error 0) then
        let* xs := load h xl in
        let* h' := update_row self h xs 0 error in
        update_loop self h' X' yl (S i) false
      else update_loop self h X' yl (S i) all_ok
  end.

Definition _update_weights (self : Perceptron) (h : heap) (Xl yl : nat)
  : result (heap * bool) :=
  let* X := load h Xl in
  let* r := update_loop self h X yl 0 true in
  Ok (fst r, negb (snd r)).

Fixpoint fit_loop (k : nat) (self : Perceptron) (h : heap) (Xl yl : nat)
  : result (Perceptron * heap) :=
  match k with
  | O => Ok (self, h)
  | S k' =>
      let self1 := set_iterations self (S self.(_iterations)) in
      let* r := _update_weights self1 h Xl yl in
      if snd r then fit_loop k' self1 (fst r) Xl yl else Ok (self1, fst r)
  end.

(** The new lists [[1] + x], one per element [x] of [X]. *)
Fixpoint augment_rows (h : heap) (X : list val) : result (list nat * heap) :=
  match X with
  | [] => Ok ([], h)
  | xv :: X' =>
      let* xl := as_ref xv in
      let* x := load h xl in
      let '(l, h1) := alloc h (VNum 1 :: x) in
      let* r := augment_rows h1 X' in
      Ok (l :: fst r, snd r)
  end.

Definition fit (rand : nat -> Q) (self : Perceptron) (h : heap) (Xl yl : nat)
  : result (Perceptron * heap) :=
  let* X := load h Xl in
  let* v0 := index X 0 in
  let* l0 := as_ref v0 in
  let* x0 := load h l0 in
  let '(wl, h1) := alloc h (map (fun k => VNum (rand k)) (seq 0 (length x0 + 1))) in
  let self1 := mkPerceptron self.(lr) self.(n_iters) 0 (Some wl) in
  let* r := augment_rows h1 X in
  let '(Xal, h2) := alloc (snd r) (map VRef (fst r)) in
  fit_loop (Z.to_nat self.(n_iters)) self1 h2 Xal yl.

(** Objects below address [n] are the same in [h] and [h']. *)
Definition unchanged_below (n : nat) (h h' : heap) : Prop :=
  forall l, (l < n)%nat -> nth_error h' l = nth_error h l.

End Heap.

(** ** Basic facts *)

Lemma list_set_app {A : Type} (pre l : list A) (a v : A) :
  list_set (pre ++ a :: l) (length pre) v = pre ++ v :: l.
Proof. induction pre as [|b pre IH]; simpl; [reflexivity | now rewrite IH]. Qed.

Lemma length_list_set {A : Type} (l : list A) j (v : A) :
  length (list_set l j v) = length l.
Proof.
  revert j; induction l as [|a l IH]; intros [|j]; simpl; auto.
Qed.

Lemma nth_error_app_len {A : Type} (pre l : list A) (a : A) :
  nth_error (pre ++ a :: l) (length pre) = Some a.
Proof. induction pre; simpl; auto. Qed.

Lemma length_add_scaled w c x : length (add_scaled w c x) = length w.
Proof.
  revert x; induction w as [|wj w IH]; intros [|xj x]; simpl; auto.
Qed.

Lemma activation_compat z1 z2 : z1 == z2 -> _activation z1 = _activation z2.
Proof. intros H; unfold _activation; now rewrite H. Qed.

Lemma activation_dec z :
  _activation z = if Qlt_le_dec 0 z then 1 else -1.
Proof.
  unfold _activation; destruct (Qlt_le_dec 0 z) as [H|H].
  - apply Qgt_alt in H; now rewrite H.
  - apply Qle_alt in H; destruct (z ?= 0) eqn:E; auto; now elim H.
Qed.

Lemma weighted_sum_app self pre w X acc :
  self.(weights) = Some (pre ++ w) -> (length X <= length w)%nat ->
  exists z, weighted_sum self X (length pre) acc = Ok z
    /\ z == acc + sum_prod X w.
Proof.
  revert pre w acc; induction X as [|xi X IH]; intros pre w acc Hw Hlen.
  - exists acc; split; [reflexivity|]. simpl; ring.
  - destruct w as [|wi w]; simpl in Hlen; [lia|].
    simpl; unfold get_weights; rewrite Hw; simpl.
    unfold index; rewrite nth_error_app_len; simpl.
    destruct (IH (pre ++ [wi]) w (acc + xi * wi)) as [z [Hz Hq]].
    + now rewrite <- app_assoc.
    + lia.
    + rewrite length_app in Hz; simpl in Hz; rewrite Nat.add_1_r in Hz.
      exists z; split; [exact Hz|]. rewrite Hq; ring.
Qed.

Lemma weighted_sum_long self w X i acc :
  self.(weights) = Some w -> (i <= length w < i + length X)%nat ->
  weighted_sum self X i acc = Error IndexError.
Proof.
  revert i acc; induction X as [|xi X IH]; intros i acc Hw Hlen; simpl in *.
  - lia.
  - unfold get_weights; rewrite Hw; simpl; unfold index.
    destruct (nth_error w i) eqn:E; simpl.
    + apply IH; auto.
      assert (i < length w)%nat by (apply nth_error_Some; congruence). lia.
    + reflexivity.
Qed.

Lemma predict_sum self w X :
  self.(weights) = Some w -> (length X <= length w)%nat ->
  predict self X = Ok (if Qlt_le_dec 0 (sum_prod X w) then 1 else -1).
Proof.
  intros Hw Hlen.
  destruct (weighted_sum_app self [] w X 0 Hw Hlen) as [z [Hz Hq]].
  unfold predict; simpl in Hz; rewrite Hz; simpl.
  rewrite (activation_compat z (sum_prod X w)) by (rewrite Hq; ring).
  now rewrite activation_dec.
Qed.

Lemma update_row_app self pre w xs e :
  self.(weights) = Some (pre ++ w) -> length xs = length w ->
  update_row self xs (length pre) e
  = Ok (set_weights self (pre ++ add_scaled w (self.(lr) * e) xs)).
Proof.
  revert self pre w; induction xs as [|xj xs IH]; intros self pre w Hw Hlen.
  - destruct w; simpl in Hlen; [|discriminate].
    destruct self as [l n it ws]; simpl in *; subst ws.
    unfold set_weights; simpl; now rewrite app_nil_r.
  - destruct w as [|wj w]; simpl in Hlen; [discriminate|].
    simpl; unfold get_weights; rewrite Hw; simpl.
    unfold index; rewrite nth_error_app_len; simpl.
    rewrite list_set_app.
    set (v := wj + lr self * e * xj).
    assert (Hl : S (length pre) = length (pre ++ [v]))
      by (rewrite length_app; simpl; lia).
    rewrite Hl, (IH _ (pre ++ [v]) w); [| simpl; now rewrite <- app_assoc | lia].
    simpl. unfold set_weights; simpl. now rewrite <- app_assoc.
Qed.

Lemma update_row_ok self w xs e :
  self.(weights) = Some w -> length xs = length w ->
  update_row self xs 0 e = Ok (set_weights self (add_scaled w (self.(lr) * e) xs)).
Proof. intros Hw Hl; exact (update_row_app self [] w xs e Hw Hl). Qed.

Lemma update_row_inv n self xs j e s' :
  update_row self xs j e = Ok s' -> wlen n self -> wlen n s' /\ same_cfg self s'.
Proof.
  revert self j; induction xs as [|xj xs IH]; intros self j H Hn; simpl in H.
  - inversion H; subst; repeat split; auto.
  - destruct Hn as [w [Hw Hlw]].
    unfold get_weights in H; rewrite Hw in H; simpl in H; unfold index in H.
    destruct (nth_error w j) as [wj|]; simpl in H; [|discriminate].
    apply IH in H as [H1 [H2 [H3 H4]]].
    + repeat split; auto.
    + eexists; split; [reflexivity|]. now rewrite length_list_set.
Qed.

Lemma update_loop_inv n self X y i ok s' ok' :
  update_loop self X y i ok = Ok (s', ok') -> wlen n self ->
  wlen n s' /\ same_cfg self s'.
Proof.
  revert self i ok; induction X as [|x X IH]; intros self i ok H Hn; simpl in H.
  - inversion H; subst; repeat split; auto.
  - destruct (predict self x) as [yh|]; simpl in H; [|discriminate].
    destruct (index y i) as [yi|]; simpl in H; [|discriminate].
    destruct (negb (Qeq_bool (yi - yh) 0)).
    + destruct (update_row self x 0 (yi - yh)) as [s1|] eqn:E; simpl in H;
        [|discriminate].
      apply update_row_inv with (n := n) in E as [E1 [E2 [E3 E4]]]; auto.
      apply IH in H as [H1 [H2 [H3 H4]]]; auto.
      repeat split; congruence.
    + eapply IH; eauto.
Qed.

Lemma _update_weights_inv n self X y s' ch :
  _update_weights self X y = Ok (s', ch) -> wlen n self ->
  wlen n s' /\ same_cfg self s'.
Proof.
  unfold _update_weights; destruct (update_loop self X y 0 true) as [[s1 b]|] eqn:E;
    simpl; intros H; inversion H; subst.
  eapply update_loop_inv; eauto.
Qed.

Lemma wlen_set_iterations n self k : wlen n self -> wlen n (set_iterations self k).
Proof. intros [w [Hw Hl]]; exists w; split; auto. Qed.

Lemma fit_loop_spec m n self X y s' :
  fit_loop n self X y = Ok s' -> wlen m self ->
  exists k flags,
    run_epochs k self X y = Ok (s', flags) /\ length flags = k /\
    s'.(_iterations) = (self.(_iterations) + k)%nat /\
    (k <= n)%nat /\ ((0 < n)%nat -> (0 < k)%nat) /\
    (forall j, (S j < k)%nat -> nth j flags false = true) /\
    ((k < n)%nat -> nth (k - 1) flags true = false) /\
    wlen m s' /\ s'.(lr) = self.(lr) /\ s'.(n_iters) = self.(n_iters).
Proof.
  revert self; induction n as [|n IH]; intros self H Hm; simpl in H.
  - inversion H; subst. exists 0%nat, []; simpl.
    repeat split; auto; intros; lia.
  - destruct (_update_weights (set_iterations self (S (_iterations self))) X y)
      as [[s1 ch]|] eqn:E; simpl in H; [|discriminate].
    pose proof (_update_weights_inv m _ X y s1 ch E (wlen_set_iterations _ _ _ Hm))
      as [Hm1 [C1 [C2 C3]]].
    simpl in C1, C2, C3.
    destruct ch.
    + destruct (IH s1 H Hm1) as [k [flags [R [L [It [Kn [Kpos [Pre [Last [W [Lr Ni]]]]]]]]]]].
      exists (S k), (true :: flags).
      split; [simpl; rewrite E; simpl; rewrite R; reflexivity|].
      split; [simpl; congruence|].
      split; [lia|]. split; [lia|]. split; [lia|].
      split; [intros [|j] Hj; simpl; auto; apply Pre; lia|].
      split; [|repeat split; congruence].
      intros Hk. assert (0 < k)%nat by (apply Kpos; lia).
      replace (S k - 1)%nat with (S (k - 1)) by lia. simpl; apply Last; lia.
    + inversion H; subst. exists 1%nat, [false].
      split; [simpl; rewrite E; reflexivity|].
      repeat split; simpl; auto; try congruence; try lia.
Qed.

Lemma update_loop_ok m self X y i ok :
  wlen m self -> Forall (fun x => length x = m) X ->
  (i + length X <= length y)%nat ->
  exists s' ok', update_loop self X y i ok = Ok (s', ok').
Proof.
  revert self i ok; induction X as [|x X IH]; intros self i ok Hm HX Hy.
  - simpl; eauto.
  - inversion HX as [|? ? Hx HX']; subst.
    destruct Hm as [w [Hw Hl]].
    simpl; rewrite (predict_sum self w x Hw) by lia; simpl.
    unfold index; destruct (nth_error y i) as [yi|] eqn:Ey.
    2:{ apply nth_error_None in Ey; simpl in Hy; lia. }
    simpl. destruct (negb _).
    + rewrite (update_row_ok self w x _ Hw) by lia; simpl.
      apply IH; auto; [|simpl in Hy; lia].
      exists (add_scaled w (lr self * (yi - (if Qlt_le_dec 0 (sum_prod x w) then 1 else -1))) x).
      split; [reflexivity|]. now rewrite length_add_scaled.
    + apply IH; [exists w; auto | auto | simpl in Hy; lia].
Qed.

Lemma fit_loop_ok m n self X y :
  wlen m self -> Forall (fun x => length x = m) X -> (length X <= length y)%nat ->
  exists s', fit_loop n self X y = Ok s'.
Proof.
  revert self; induction n as [|n IH]; intros self Hm HX Hy; simpl; eauto.
  destruct (update_loop_ok m (set_iterations self (S (_iterations self))) X y 0 true)
    as [s1 [ok1 E]]; auto using wlen_set_iterations.
  unfold _update_weights; rewrite E; simpl.
  destruct (negb ok1); eauto.
  apply IH; auto.
  eapply (update_loop_inv m _ X y 0 true s1 ok1 E).
  now apply wlen_set_iterations.
Qed.


Lemma wlen_fit_init rand self x0 :
  wlen (length x0 + 1) (fit_init rand self x0).
Proof.
  eexists; split; [reflexivity|]. now rewrite length_map, length_seq.
Qed.

Lemma augment_lengths (x0 : list Q) (X : list (list Q)) :
  Forall (fun x => length x = length x0) X ->
  Forall (fun x => length x = (length x0 + 1)%nat) (augment X).
Proof.
  intros H; unfold augment; induction H; simpl; constructor; auto.
  simpl; lia.
Qed.

Lemma fit_cons rand self x0 X y :
  fit rand self (x0 :: X) y
  = fit_loop (Z.to_nat self.(n_iters)) (fit_init rand self x0)
      (augment (x0 :: X)) y.
Proof. reflexivity. Qed.

(** ** The claims *)

(** C1: one sample of an epoch.  The prediction is the activation of the
    weighted sum; when [error = y_i - y_hat] is non-zero every weight [j]
    (the bias at index 0 paired with the constant 1) grows by
    [learning_rate * error * x_j] and the flag [all_classified_correctly]
    drops; when the error is zero nothing changes.  The next sample
    ([S i]) is processed after it. *)
Theorem update_sample_rule (self : Perceptron) (w feats : list Q)
  (X : list (list Q)) (y : list Q) (i : nat) (all_ok : bool) (yi : Q) :
  self.(weights) = Some w -> length (1 :: feats) = length w ->
  nth_error y i = Some yi ->
  update_loop self ((1 :: feats) :: X) y i all_ok =
  (let y_hat := if Qlt_le_dec 0 (sum_prod (1 :: feats) w) then 1 else -1 in
   let error := yi - y_hat in
   if Qeq_bool error 0 then update_loop self X y (S i) all_ok
   else update_loop (set_weights self (add_scaled w (self.(lr) * error) (1 :: feats)))
          X y (S i) false).
Proof.
  intros Hw Hl Hy.
  cbn [update_loop]. rewrite (predict_sum self w (1 :: feats) Hw) by lia; cbn [bind].
  unfold index; rewrite Hy; cbn [bind].
  destruct (Qeq_bool _ 0); cbn [negb]; [reflexivity|].
  rewrite (update_row_ok self w _ _ Hw Hl); reflexivity.
Qed.

Lemma update_sample_rule_witness :
  (mkPerceptron (1#10) 5 0 (Some [0; 0; 0])).(weights) = Some [0; 0; 0]
  /\ update_loop (mkPerceptron (1#10) 5 0 (Some [0; 0; 0])) [[1; 2; 3]] [1] 0 true
     = Ok (mkPerceptron (1#10) 5 0
             (Some (add_scaled [0; 0; 0] ((1#10) * (1 - -1)) [1; 2; 3])), false).
Proof.
  split; [reflexivity|].
  rewrite (update_sample_rule (mkPerceptron (1#10) 5 0 (Some [0; 0; 0]))
             [0; 0; 0] [2; 3] [] [1] 0 true 1); try reflexivity.
Defined.

(** C2: [predict] returns [1] when [z = sum X[i] * weight[i] > 0] and [-1]
    otherwise, in particular [-1] at [z == 0]; whatever it returns is [1]
    or [-1]. *)
Theorem predict_activation_rule (self : Perceptron) (w X : list Q) :
  self.(weights) = Some w -> (length X <= length w)%nat ->
  predict self X = Ok (if Qlt_le_dec 0 (sum_prod X w) then 1 else -1)
  /\ (sum_prod X w == 0 -> predict self X = Ok (-1))
  /\ (forall v, predict self X = Ok v -> v = 1 \/ v = -1).
Proof.
  intros Hw Hl. rewrite (predict_sum self w X Hw Hl).
  split; [reflexivity|]. split.
  - intros Hz. destruct (Qlt_le_dec 0 (sum_prod X w)) as [H|H]; [|reflexivity].
    rewrite Hz in H. exfalso; exact (Qlt_irrefl 0 H).
  - intros v Hv. destruct (Qlt_le_dec 0 (sum_prod X w)); inversion Hv; auto.
Qed.

Lemma predict_activation_rule_witness :
  predict (mkPerceptron (1#10) 5 0 (Some [1; 1; -2])) [1; 1; 1] = Ok (-1).
Proof.
  destruct (predict_activation_rule (mkPerceptron (1#10) 5 0 (Some [1; 1; -2]))
              [1; 1; -2] [1; 1; 1] eq_refl (le_n 3)) as [_ [H _]].
  apply H. reflexivity.
Defined.

(** C3: on well-formed input [fit] returns normally after [k] epochs, and
    the state it returns is the one reached by running exactly [k] epochs
    ([flags] lists, per epoch, whether a sample was misclassified): every
    epoch before the last one had a misclassification, and [fit] stops
    before [max_iterations] epochs only after an epoch without any.  Hence
    it stops right after the first clean epoch, and when every epoch
    misclassifies it runs [max_iterations] epochs. *)
Theorem fit_stops_at_first_clean_epoch (rand : nat -> Q) (self : Perceptron)
  (x0 : list Q) (X : list (list Q)) (y : list Q) :
  Forall (fun x => length x = length x0) (x0 :: X) ->
  (length (x0 :: X) <= length y)%nat ->
  exists k flags s',
    fit rand self (x0 :: X) y = Ok s' /\ iterations s' = k /\
    run_epochs k (fit_init rand self x0) (augment (x0 :: X)) y = Ok (s', flags) /\
    length flags = k /\ (k <= Z.to_nat self.(n_iters))%nat /\
    (forall j, (S j < k)%nat -> nth j flags false = true) /\
    ((k < Z.to_nat self.(n_iters))%nat -> (0 < k)%nat /\ nth (k - 1) flags true = false) /\
    ((0 < Z.to_nat self.(n_iters))%nat ->
       nth (k - 1) flags true = true -> k = Z.to_nat self.(n_iters)).
Proof.
  intros HX Hy. rewrite fit_cons.
  destruct (fit_loop_ok (length x0 + 1) (Z.to_nat (n_iters self))
              (fit_init rand self x0) (augment (x0 :: X)) y)
    as [s' Hs']; auto using wlen_fit_init, augment_lengths.
  { unfold augment; now rewrite length_map. }
  destruct (fit_loop_spec _ _ _ _ _ _ Hs' (wlen_fit_init rand self x0))
    as [k [flags [R [L [It [Kn [Kpos [Pre [Last _]]]]]]]]].
  exists k, flags, s'. simpl in It.
  split; [exact Hs'|]. split; [exact It|]. split; [exact R|].
  split; [exact L|]. split; [exact Kn|]. split; [exact Pre|].
  split.
  - intros Hk; split; [apply Kpos; lia | now apply Last].
  - intros Hn Ht. destruct (Nat.eq_dec k (Z.to_nat (n_iters self))); auto.
    rewrite Last in Ht by lia. discriminate.
Qed.

Lemma fit_stops_at_first_clean_epoch_witness :
  exists k flags s',
    fit rand0 (__init__ (1#10) 10) [[2; 2]; [-2; -2]] [1; -1] = Ok s' /\
    iterations s' = k /\
    run_epochs k (fit_init rand0 (__init__ (1#10) 10) [2; 2])
      (augment [[2; 2]; [-2; -2]]) [1; -1] = Ok (s', flags) /\
    length flags = k /\ (k <= Z.to_nat (__init__ (1#10) 10).(n_iters))%nat /\
    (forall j, (S j < k)%nat -> nth j flags false = true) /\
    ((k < Z.to_nat (__init__ (1#10) 10).(n_iters))%nat ->
       (0 < k)%nat /\ nth (k - 1) flags true = false) /\
    ((0 < Z.to_nat (__init__ (1#10) 10).(n_iters))%nat ->
       nth (k - 1) flags true = true -> k = Z.to_nat (__init__ (1#10) 10).(n_iters)).
Proof.
  apply (fit_stops_at_first_clean_epoch rand0 (__init__ (1#10) 10) [2; 2] [[-2; -2]] [1; -1]).
  - repeat constructor.
  - simpl; lia.
Defined.

(** C4: after [fit] returns on samples whose first one has [n] features,
    with [max_iterations > 0], [weights] has [n + 1] entries and
    [1 <= iterations <= max_iterations]. *)
Theorem fit_weights_and_iterations (rand : nat -> Q) (self s' : Perceptron)
  (x0 : list Q) (X : list (list Q)) (y : list Q) :
  (0 < self.(n_iters))%Z ->
  fit rand self (x0 :: X) y = Ok s' ->
  wlen (length x0 + 1) s' /\
  (1 <= iterations s' <= Z.to_nat self.(n_iters))%nat.
Proof.
  intros Hn H. rewrite fit_cons in H.
  destruct (fit_loop_spec _ _ _ _ _ _ H (wlen_fit_init rand self x0))
    as [k [flags [R [L [It [Kn [Kpos [Pre [Last [W _]]]]]]]]]].
  simpl in It. unfold iterations. split; auto.
  assert (0 < Z.to_nat (n_iters self))%nat by lia.
  specialize (Kpos H0). lia.
Qed.

Lemma fit_weights_and_iterations_witness :
  exists s', fit rand0 (__init__ (1#10) 3) [[0; 1]; [1; 0]; [0; 0]; [1; 1]]
               [-1; 1; 1; -1] = Ok s' /\
    wlen 3 s' /\ (1 <= iterations s' <= 3)%nat.
Proof.
  destruct (fit rand0 (__init__ (1#10) 3) [[0; 1]; [1; 0]; [0; 0]; [1; 1]]
              [-1; 1; 1; -1]) as [s'|e] eqn:E.
  - exists s'; split; [reflexivity|].
    exact (fit_weights_and_iterations rand0 (__init__ (1#10) 3) s' [0; 1]
             [[1; 0]; [0; 0]; [1; 1]] [-1; 1; 1; -1] eq_refl E).
  - vm_compute in E; discriminate E.
Defined.

(** C5 (as the code has it): [fit] on an empty sample list raises
    [IndexError] (from [X[0]]), whatever the labels and the instance. *)
Theorem fit_empty_samples (rand : nat -> Q) (self : Perceptron) (y : list Q) :
  fit rand self [] y = Error IndexError.
Proof. reflexivity. Qed.

(** C5 as stated fails: the error raised is not [InvalidInput]. *)
Lemma fit_empty_samples_not_invalid_input :
  fit rand0 (__init__ (1#100) 1000) [] [] <> Error InvalidInput.
Proof. discriminate. Qed.






(** C7: a fresh instance reports [0] iterations; a second [fit] behaves as
    on a fresh instance, and the [iterations] it leaves is exactly the
    number of epochs it ran (its result is the state after that many
    epochs, counted from [0]). *)
Theorem iterations_reflect_last_fit (l : Q) (n : Z) (rand1 rand2 : nat -> Q)
  (X1 X2 : list (list Q)) (y1 y2 : list Q) (s1 s2 : Perceptron) :
  fit rand1 (__init__ l n) X1 y1 = Ok s1 ->
  fit rand2 s1 X2 y2 = Ok s2 ->
  iterations (__init__ l n) = 0%nat /\
  fit rand2 s1 X2 y2 = fit rand2 (__init__ l n) X2 y2 /\
  exists x0 X2' flags, X2 = x0 :: X2' /\
    run_epochs (iterations s2) (fit_init rand2 (__init__ l n) x0) (augment X2) y2
    = Ok (s2, flags).
Proof.
  intros H1 H2.
  destruct X1 as [|x1 X1]; [discriminate|].
  rewrite fit_cons in H1.
  destruct (fit_loop_spec _ _ _ _ _ _ H1 (wlen_fit_init rand1 _ x1))
    as [k1 [fl1 [_ [_ [_ [_ [_ [_ [_ [_ [Lr1 Ni1]]]]]]]]]]].
  simpl in Lr1, Ni1.
  assert (Hi : forall x0, fit_init rand2 s1 x0 = fit_init rand2 (__init__ l n) x0)
    by (intros x0; unfold fit_init; now rewrite Lr1, Ni1).
  assert (Hf : fit rand2 s1 X2 y2 = fit rand2 (__init__ l n) X2 y2).
  { destruct X2 as [|x2 X2]; [reflexivity|].
    rewrite !fit_cons, Hi, Ni1; reflexivity. }
  split; [reflexivity|]. split; [exact Hf|].
  destruct X2 as [|x2 X2]; [discriminate|].
  rewrite Hf, fit_cons in H2.
  destruct (fit_loop_spec _ _ _ _ _ _ H2 (wlen_fit_init rand2 _ x2))
    as [k2 [fl2 [R2 [_ [It2 _]]]]].
  simpl in It2. exists x2, X2, fl2. split; [reflexivity|].
  unfold iterations; rewrite It2; exact R2.
Qed.

Lemma iterations_reflect_last_fit_witness :
  exists s1 s2,
    fit rand0 (__init__ (1#10) 5) [[2; 2]; [-2; -2]] [1; -1] = Ok s1 /\
    fit (fun k => rand0 (S k)) s1 [[1; 0]; [-1; 0]] [-1; 1] = Ok s2 /\
    iterations s1 = 1%nat /\ iterations s2 = 3%nat /\
    (exists x0 X2' flags, [[1; 0]; [-1; 0]] = x0 :: X2' /\
       run_epochs (iterations s2) (fit_init (fun k => rand0 (S k)) (__init__ (1#10) 5) x0)
         (augment [[1; 0]; [-1; 0]]) [-1; 1] = Ok (s2, flags)).
Proof.
  destruct (fit rand0 (__init__ (1#10) 5) [[2; 2]; [-2; -2]] [1; -1]) as [s1|e] eqn:E1;
    [|vm_compute in E1; discriminate E1].
  destruct (fit (fun k => rand0 (S k)) s1 [[1; 0]; [-1; 0]] [-1; 1]) as [s2|e] eqn:E2.
  - exists s1, s2. split; [reflexivity|]. split; [exact E2|].
    destruct (iterations_reflect_last_fit (1#10) 5 rand0 (fun k => rand0 (S k))
                _ _ _ _ s1 s2 E1 E2) as [_ [Hf Hr]].
    split; [vm_compute in E1; inversion E1; reflexivity|].
    split; [|exact Hr].
    rewrite Hf in E2; vm_compute in E2; inversion E2; reflexivity.
  - vm_compute in E1; inversion E1; subst s1; vm_compute in E2; discriminate E2.
Defined.

(** C8 (as the code has it): before any [fit], [self.weights] is not set;
    [predict] raises [AttributeError] on a non-empty input, and on the
    empty input the generator never reads [self.weights], so it returns
    [-1]. *)
Theorem predict_before_fit (l : Q) (n : Z) (X : list Q) :
  predict (__init__ l n) X =
  match X with
  | [] => Ok (-1)
  | _ :: _ => Error AttributeError
  end.
Proof. destruct X; reflexivity. Qed.

(** C8 as stated fails: no [NotTrained] error, and a prediction is
    computed on the empty input. *)
Lemma predict_before_fit_counterexample :
  predict (__init__ (1#100) 1000) [] = Ok (-1)
  /\ predict (__init__ (1#100) 1000) [] <> Error NotTrained
  /\ predict (__init__ (1#100) 1000) [1; 2] <> Error NotTrained.
Proof. split; [reflexivity | split; discriminate]. Qed.

Lemma weighted_sum_weights s1 s2 X i acc :
  s1.(weights) = s2.(weights) ->
  weighted_sum s1 X i acc = weighted_sum s2 X i acc.
Proof.
  intros H; revert i acc; induction X as [|x X IH]; intros i acc; simpl; auto.
  unfold get_weights; rewrite H.
  destruct (weights s2) as [w|]; simpl; auto.
  destruct (index w i); simpl; auto.
Qed.

(** C9: [predict] is a function of [self.weights] and the input alone
    (learning rate, [n_iters] and the counter play no part), so equal
    weights and equal input give equal output; its embedding returns no
    new [Perceptron], as the source assigns no attribute in it. *)
Theorem predict_pure (s1 s2 : Perceptron) (X : list Q) :
  s1.(weights) = s2.(weights) -> predict s1 X = predict s2 X.
Proof.
  intros H; unfold predict; now rewrite (weighted_sum_weights s1 s2 X 0 0 H).
Qed.

Lemma predict_pure_witness :
  predict (mkPerceptron (1#10) 5 3 (Some [1; -1])) [1; 2]
  = predict (mkPerceptron 2 7 0 (Some [1; -1])) [1; 2].
Proof. apply predict_pure; reflexivity. Defined.

(** ** Further properties of the code *)

Lemma predict_in_range self X v : predict self X = Ok v -> v = 1 \/ v = -1.
Proof.
  unfold predict; destruct (weighted_sum self X 0 0); simpl; intros H;
    inversion H; subst; unfold _activation; destruct (_ ?= 0); auto.
Qed.

Lemma update_loop_dirty self X y i s' b :
  update_loop self X y i false = Ok (s', b) -> b = false.
Proof.
  revert self i; induction X as [|x X IH]; intros self i H; simpl in H.
  - congruence.
  - destruct (predict self x); simpl in H; [|discriminate].
    destruct (index y i); simpl in H; [|discriminate].
    destruct (negb _); [|eauto].
    destruct (update_row self x 0 _); simpl in H; [eauto | discriminate].
Qed.

Lemma update_loop_clean self X y i s' :
  update_loop self X y i true = Ok (s', true) ->
  s' = self /\
  forall j x, nth_error X j = Some x ->
    exists v yi, predict self x = Ok v /\ nth_error y (i + j) = Some yi /\ yi == v.
Proof.
  revert self i; induction X as [|x X IH]; intros self i H; simpl in H.
  - inversion H; subst; split; auto. intros [|j] x Hx; discriminate.
  - destruct (predict self x) as [yh|] eqn:Ep; simpl in H; [|discriminate].
    unfold index in H; destruct (nth_error y i) as [yi|] eqn:Ey; simpl in H;
      [|discriminate].
    destruct (Qeq_bool (yi - yh) 0) eqn:Eq; simpl in H.
    + destruct (IH self (S i) H) as [Hs Hj]; split; auto.
      intros [|j] x' Hx; simpl in Hx.
      * inversion Hx; subst. exists yh, yi. rewrite Nat.add_0_r.
        split; auto. split; auto.
        apply Qeq_bool_iff in Eq.
        setoid_replace yi with ((yi - yh) + yh) by ring. rewrite Eq; ring.
      * rewrite <- Nat.add_succ_comm; apply Hj; exact Hx.
    + destruct (update_row self x 0 (yi - yh)); simpl in H; [|discriminate].
      apply update_loop_dirty in H; discriminate.
Qed.

(** X1: an epoch in which [_update_weights] reports no misclassification
    leaves the instance, and so the weights, exactly as it found them. *)
Theorem clean_epoch_keeps_weights (self s' : Perceptron) (X : list (list Q))
  (y : list Q) :
  _update_weights self X y = Ok (s', false) -> s' = self.
Proof.
  unfold _update_weights.
  destruct (update_loop self X y 0 true) as [[s1 b]|] eqn:E; simpl;
    intros H; inversion H; subst.
  destruct b; [|discriminate].
  now apply update_loop_clean in E as [-> _].
Qed.

Lemma clean_epoch_keeps_weights_witness :
  _update_weights (mkPerceptron (1#10) 5 1 (Some [0; 1; 1])) [[1; 2; 2]; [1; -2; -2]] [1; -1]
  = Ok (mkPerceptron (1#10) 5 1 (Some [0; 1; 1]), false)
  /\ mkPerceptron (1#10) 5 1 (Some [0; 1; 1]) = mkPerceptron (1#10) 5 1 (Some [0; 1; 1]).
Proof.
  assert (E : _update_weights (mkPerceptron (1#10) 5 1 (Some [0; 1; 1]))
                [[1; 2; 2]; [1; -2; -2]] [1; -1]
              = Ok (mkPerceptron (1#10) 5 1 (Some [0; 1; 1]), false))
    by reflexivity.
  split; [exact E | exact (clean_epoch_keeps_weights _ _ _ _ E)].
Defined.

Lemma fit_loop_last_epoch m n self X y s' :
  fit_loop n self X y = Ok s' -> wlen m self ->
  (s'.(_iterations) < self.(_iterations) + n)%nat ->
  exists s0, _update_weights s0 X y = Ok (s', false).
Proof.
  revert self; induction n as [|n IH]; intros self H Hm Hlt; simpl in H; [inversion H; subst; lia|].
  destruct (_update_weights (set_iterations self (S (_iterations self))) X y)
    as [[s1 ch]|] eqn:E; simpl in H; [|discriminate].
  pose proof (_update_weights_inv m _ X y s1 ch E (wlen_set_iterations _ _ _ Hm))
    as [Hm1 [_ [_ C3]]]; simpl in C3.
  destruct ch.
  - apply (IH s1 H Hm1); lia.
  - inversion H; subst; eauto.
Qed.

Lemma fit_early_stop_all_correct rand self x0 X y s' :
  fit rand self (x0 :: X) y = Ok s' ->
  (iterations s' < Z.to_nat self.(n_iters))%nat ->
  forall j x, nth_error (augment (x0 :: X)) j = Some x ->
    exists v yi, predict s' x = Ok v /\ nth_error y j = Some yi /\ yi == v.
Proof.
  intros H Hlt. rewrite fit_cons in H.
  destruct (fit_loop_last_epoch _ _ _ _ _ _ H (wlen_fit_init rand self x0) Hlt)
    as [s0 E].
  unfold _update_weights in E.
  destruct (update_loop s0 (augment (x0 :: X)) y 0 true) as [[s1 b]|] eqn:E1;
    simpl in E; inversion E; subst.
  destruct b; [|discriminate].
  apply update_loop_clean in E1 as [-> Hj]. exact Hj.
Qed.

(** X2: when [fit] stops before [n_iters] epochs, its final weights
    classify every augmented training sample [[1] + x] as its label. *)
Theorem fit_early_stop_classifies_all (rand : nat -> Q) (self s' : Perceptron)
  (x0 : list Q) (X : list (list Q)) (y : list Q) :
  fit rand self (x0 :: X) y = Ok s' ->
  (iterations s' < Z.to_nat self.(n_iters))%nat ->
  forall j x, nth_error (augment (x0 :: X)) j = Some x ->
    exists v yi, predict s' x = Ok v /\ nth_error y j = Some yi /\ yi == v.
Proof. exact (fit_early_stop_all_correct rand self x0 X y s'). Qed.

Lemma fit_early_stop_classifies_all_witness :
  exists s', fit rand0 (__init__ (1#10) 10) [[2; 2]; [-2; -2]] [1; -1] = Ok s' /\
    exists v yi, predict s' [1; -2; -2] = Ok v /\ nth_error [1; -1] 1 = Some yi /\ yi == v.
Proof.
  destruct (fit rand0 (__init__ (1#10) 10) [[2; 2]; [-2; -2]] [1; -1]) as [s'|e] eqn:E.
  - exists s'; split; [reflexivity|].
    apply (fit_early_stop_classifies_all rand0 _ s' [2; 2] [[-2; -2]] [1; -1] E).
    + vm_compute in E; inversion E; subst; simpl; lia.
    + reflexivity.
  - vm_compute in E; discriminate E.
Defined.

Lemma update_loop_odd_sample s X y i ok s1 b j x yj :
  update_loop s X y i ok = Ok (s1, b) ->
  nth_error X j = Some x -> nth_error y (i + j) = Some yj ->
  (forall s v, predict s x = Ok v -> ~ yj == v) ->
  b = false.
Proof.
  revert s i ok j; induction X as [|x' X IH]; intros s i ok j H Hx Hy Hmis;
    [destruct j; discriminate|].
  simpl in H.
  destruct (predict s x') as [yh|] eqn:Ep; simpl in H; [|discriminate].
  unfold index in H; destruct (nth_error y i) as [yi|] eqn:Ey; simpl in H;
    [|discriminate].
  destruct j as [|j]; simpl in Hx.
  - inversion Hx; subst x'. rewrite Nat.add_0_r, Ey in Hy; inversion Hy; subst yi.
    destruct (Qeq_bool (yj - yh) 0) eqn:Eq; simpl in H.
    + exfalso. apply (Hmis s yh Ep). apply Qeq_bool_iff in Eq.
      setoid_replace yj with ((yj - yh) + yh) by ring. rewrite Eq; ring.
    + destruct (update_row s x 0 (yj - yh)); simpl in H; [|discriminate].
      exact (update_loop_dirty _ _ _ _ _ _ H).
  - rewrite Nat.add_succ_r in Hy.
    destruct (negb (Qeq_bool (yi - yh) 0)).
    + destruct (update_row s x' 0 (yi - yh)); simpl in H; [|discriminate].
      exact (IH _ (S i) false j H Hx Hy Hmis).
    + exact (IH _ (S i) ok j H Hx Hy Hmis).
Qed.

Lemma run_epochs_all_true k s X y s' flags :
  run_epochs k s X y = Ok (s', flags) ->
  (forall s0 s1 ch, _update_weights s0 X y = Ok (s1, ch) -> ch = true) ->
  Forall (fun b => b = true) flags.
Proof.
  intros H Hall; revert s flags H; induction k as [|k IH]; intros s flags H;
    simpl in H.
  - inversion H; constructor.
  - destruct (_update_weights (set_iterations s (S (_iterations s))) X y)
      as [[s1 ch]|] eqn:E; simpl in H; [|discriminate].
    destruct (run_epochs k s1 X y) as [[s2 fl]|] eqn:E2; simpl in H; [|discriminate].
    inversion H; subst. constructor; [exact (Hall _ _ _ E) | exact (IH _ _ E2)].
Qed.

(** X3: when the label [yj] of a training sample [xj] is neither [1] nor
    [-1], [predict] on the augmented sample [[1] + xj] never equals it,
    whatever the weights; so every epoch ([_update_weights]) misclassifies
    it and reports a misclassification, the epochs [fit] runs all do, and a
    returning [fit] has run all [n_iters] epochs. *)
Theorem fit_odd_label_runs_all_epochs (rand : nat -> Q) (self s' : Perceptron)
  (x0 : list Q) (X : list (list Q)) (y : list Q) (j : nat) (xj : list Q) (yj : Q) :
  nth_error (x0 :: X) j = Some xj -> nth_error y j = Some yj ->
  ~ yj == 1 -> ~ yj == -1 ->
  fit rand self (x0 :: X) y = Ok s' ->
  (forall s v, predict s (1 :: xj) = Ok v -> ~ yj == v) /\
  (forall s s1 ch, _update_weights s (augment (x0 :: X)) y = Ok (s1, ch) -> ch = true) /\
  exists flags,
    run_epochs (iterations s') (fit_init rand self x0) (augment (x0 :: X)) y
    = Ok (s', flags) /\
    Forall (fun b => b = true) flags /\
    iterations s' = Z.to_nat self.(n_iters).
Proof.
  intros Hx Hy H1 H2 H.
  assert (Hmis : forall s v, predict s (1 :: xj) = Ok v -> ~ yj == v).
  { intros s v Hp Heq. destruct (predict_in_range _ _ _ Hp); subst; auto. }
  assert (Hx' : nth_error (augment (x0 :: X)) j = Some (1 :: xj))
    by (unfold augment; rewrite nth_error_map, Hx; reflexivity).
  assert (Hall : forall s s1 ch,
            _update_weights s (augment (x0 :: X)) y = Ok (s1, ch) -> ch = true).
  { intros s s1 ch E. unfold _update_weights in E.
    destruct (update_loop s (augment (x0 :: X)) y 0 true) as [[s2 b]|] eqn:E1;
      simpl in E; inversion E; subst.
    rewrite (update_loop_odd_sample _ _ _ _ _ _ _ j (1 :: xj) yj E1 Hx' Hy Hmis).
    reflexivity. }
  split; [exact Hmis|]. split; [exact Hall|].
  rewrite fit_cons in H.
  destruct (fit_loop_spec _ _ _ _ _ _ H (wlen_fit_init rand self x0))
    as [k [flags [R [L [It [Kn [Kpos [_ [Last _]]]]]]]]].
  simpl in It. exists flags. unfold iterations; rewrite It.
  pose proof (run_epochs_all_true _ _ _ _ _ _ R Hall) as Hf.
  split; [exact R|]. split; [exact Hf|].
  destruct (Nat.eq_dec k (Z.to_nat (n_iters self))) as [|Hne]; auto.
  exfalso.
  assert (Hk : (k < Z.to_nat (n_iters self))%nat) by lia.
  pose proof (Last Hk) as Hl. assert (0 < k)%nat by (apply Kpos; lia).
  assert (Hin : In (nth (k - 1) flags true) flags) by (apply nth_In; lia).
  rewrite Forall_forall in Hf. rewrite (Hf _ Hin) in Hl. discriminate.
Qed.

Lemma fit_odd_label_runs_all_epochs_witness :
  exists s', fit rand0 (__init__ (1#10) 7) [[1; 0]; [0; 1]] [1; 0] = Ok s' /\
    iterations s' = 7%nat.
Proof.
  destruct (fit rand0 (__init__ (1#10) 7) [[1; 0]; [0; 1]] [1; 0]) as [s'|e] eqn:E.
  - exists s'; split; [reflexivity|].
    destruct (fit_odd_label_runs_all_epochs rand0 (__init__ (1#10) 7) s' [1; 0] [[0; 1]]
                [1; 0] 1 [0; 1] 0 eq_refl eq_refl ltac:(discriminate) ltac:(discriminate) E)
      as [_ [_ [flags [_ [_ Hit]]]]].
    exact Hit.
  - vm_compute in E; discriminate E.
Defined.


(** X4: with [n_iters <= 0] the epoch loop never runs: [fit] returns the
    freshly drawn weights and [iterations = 0], without reading the labels
    (any label list, even an empty one, is accepted). *)
Theorem fit_no_epochs (rand : nat -> Q) (self : Perceptron) (x0 : list Q)
  (X : list (list Q)) (y : list Q) :
  (self.(n_iters) <= 0)%Z ->
  fit rand self (x0 :: X) y
  = Ok (mkPerceptron self.(lr) self.(n_iters) 0
          (Some (map rand (seq 0 (length x0 + 1))))).
Proof.
  intros H. rewrite fit_cons.
  replace (Z.to_nat (n_iters self)) with 0%nat by lia. reflexivity.
Qed.

Lemma fit_no_epochs_witness :
  fit rand0 (__init__ (1#10) 0) [[3; 4]] [] = Ok (mkPerceptron (1#10) 0 0 (Some [0#4; 1#4; 2#4])).
Proof. apply fit_no_epochs. discriminate. Defined.

Lemma update_row_le self w xs j e :
  self.(weights) = Some w -> (j + length xs <= length w)%nat ->
  exists w', update_row self xs j e = Ok (set_weights self w') /\ length w' = length w.
Proof.
  revert self w j; induction xs as [|xj xs IH]; intros self w j Hw Hl.
  - exists w; split; [|reflexivity].
    destruct self as [l n it ws]; simpl in *; subst ws; reflexivity.
  - simpl in Hl; simpl; unfold get_weights; rewrite Hw; simpl; unfold index.
    destruct (nth_error w j) as [wj|] eqn:E.
    2:{ apply nth_error_None in E; lia. }
    simpl.
    destruct (IH (set_weights self (list_set w j (wj + lr self * e * xj)))
                (list_set w j (wj + lr self * e * xj)) (S j))
      as [w' [H1 H2]]; [reflexivity | rewrite length_list_set; lia |].
    exists w'; split; [exact H1 | rewrite H2; apply length_list_set].
Qed.

Lemma update_loop_ok_le m self X y i ok :
  wlen m self -> Forall (fun x => (length x <= m)%nat) X ->
  (i + length X <= length y)%nat ->
  exists s' ok', update_loop self X y i ok = Ok (s', ok') /\ wlen m s'.
Proof.
  revert self i ok; induction X as [|x X IH]; intros self i ok Hm HX Hy.
  - simpl; eauto.
  - inversion HX as [|? ? Hx HX']; subst.
    destruct Hm as [w [Hw Hl]].
    simpl; rewrite (predict_sum self w x Hw) by lia; simpl.
    unfold index; destruct (nth_error y i) as [yi|] eqn:Ey.
    2:{ apply nth_error_None in Ey; simpl in Hy; lia. }
    simpl. destruct (negb _).
    + destruct (update_row_le self w x 0 (yi - (if Qlt_le_dec 0 (sum_prod x w) then 1 else -1)) Hw)
        as [w' [E Hl']]; [lia|].
      rewrite E; simpl.
      apply IH; auto; [|simpl in Hy; lia].
      exists w'; split; [reflexivity | lia].
    + apply IH; [exists w; auto | auto | simpl in Hy; lia].
Qed.

Lemma fit_loop_ok_le m n self X y :
  wlen m self -> Forall (fun x => (length x <= m)%nat) X -> (length X <= length y)%nat ->
  exists s', fit_loop n self X y = Ok s' /\ wlen m s'.
Proof.
  revert self; induction n as [|n IH]; intros self Hm HX Hy; simpl; eauto.
  destruct (update_loop_ok_le m (set_iterations self (S (_iterations self))) X y 0 true)
    as [s1 [ok1 [E Hm1]]]; auto using wlen_set_iterations.
  unfold _update_weights; rewrite E; simpl.
  destruct (negb ok1); eauto.
Qed.

Lemma augment_lengths_le (m : nat) (X : list (list Q)) :
  Forall (fun x => (length x <= m)%nat) X ->
  Forall (fun x => (length x <= m + 1)%nat) (augment X).
Proof.
  intros H; unfold augment; induction H; simpl; constructor; auto.
  simpl; lia.
Qed.

(** X6: samples after the first may be shorter than it: with one label per
    sample, [fit] then returns normally and its weight vector still has
    [len(X[0]) + 1] entries (a shorter sample only updates the leading
    weights). *)
Theorem fit_accepts_shorter_samples (rand : nat -> Q) (self : Perceptron)
  (x0 : list Q) (X : list (list Q)) (y : list Q) :
  Forall (fun x => (length x <= length x0)%nat) X ->
  (length (x0 :: X) <= length y)%nat ->
  exists s', fit rand self (x0 :: X) y = Ok s' /\ wlen (length x0 + 1) s'.
Proof.
  intros HX Hy. rewrite fit_cons.
  apply fit_loop_ok_le; auto using wlen_fit_init.
  - apply augment_lengths_le. constructor; auto.
  - unfold augment; now rewrite length_map.
Qed.

Lemma fit_accepts_shorter_samples_witness :
  exists s', fit rand0 (__init__ (1#10) 5) [[1; 1]; [-1]; []] [1; -1; 1] = Ok s'
    /\ wlen 3 s'.
Proof.
  apply (fit_accepts_shorter_samples rand0 _ [1; 1] [[-1]; []] [1; -1; 1]).
  - repeat constructor; simpl; lia.
  - simpl; lia.
Defined.

Lemma update_loop_longer m self pre x post y i ok :
  wlen m self -> Forall (fun x => (length x <= m)%nat) pre -> (m < length x)%nat ->
  (i + length pre <= length y)%nat ->
  update_loop self (pre ++ x :: post) y i ok = Error IndexError.
Proof.
  revert self i ok; induction pre as [|p pre IH]; intros self i ok Hm Hpre Hx Hy.
  - destruct Hm as [w [Hw Hl]]. simpl. unfold predict.
    rewrite (weighted_sum_long self w x 0 0 Hw) by lia. reflexivity.
  - inversion Hpre as [|? ? Hp Hpre']; subst.
    destruct Hm as [w [Hw Hl]].
    simpl; rewrite (predict_sum self w p Hw) by lia; simpl.
    unfold index; destruct (nth_error y i) as [yi|] eqn:Ey.
    2:{ apply nth_error_None in Ey; simpl in Hy; lia. }
    simpl. destruct (negb _).
    + destruct (update_row_le self w p 0 (yi - (if Qlt_le_dec 0 (sum_prod p w) then 1 else -1)) Hw)
        as [w' [E Hl']]; [lia|].
      rewrite E; simpl.
      apply IH; auto; [|simpl in Hy; lia].
      exists w'; split; [reflexivity | lia].
    + apply IH; [exists w; auto | auto | auto | simpl in Hy; lia].
Qed.

(** X7: a sample longer than the first one makes [fit] raise [IndexError]
    in its first epoch: the first [_update_weights] call (counter [1], on
    the freshly drawn weights) fails, and so does [fit].  This holds when
    [n_iters > 0], no sample before it is longer than the first and each of
    those has a label; [predict] reads a weight past the end of
    [self.weights]. *)
Theorem fit_rejects_longer_sample (rand : nat -> Q) (self : Perceptron)
  (x0 x : list Q) (pre post : list (list Q)) (y : list Q) :
  (0 < self.(n_iters))%Z ->
  Forall (fun p => (length p <= length x0)%nat) pre ->
  (length x0 < length x)%nat ->
  (length (x0 :: pre) <= length y)%nat ->
  _update_weights (set_iterations (fit_init rand self x0) 1)
    (augment (x0 :: pre ++ x :: post)) y = Error IndexError /\
  fit rand self (x0 :: pre ++ x :: post) y = Error IndexError.
Proof.
  intros Hn Hpre Hx Hy.
  assert (E1 : _update_weights (set_iterations (fit_init rand self x0) 1)
                 (augment (x0 :: pre ++ x :: post)) y = Error IndexError).
  { unfold _update_weights.
    replace (augment (x0 :: pre ++ x :: post))
      with (augment (x0 :: pre) ++ (1 :: x) :: augment post)
      by (unfold augment; simpl; now rewrite map_app).
    rewrite (update_loop_longer (length x0 + 1)); auto.
    - now apply wlen_set_iterations, wlen_fit_init.
    - apply augment_lengths_le; constructor; auto.
    - simpl; lia.
    - unfold augment; rewrite length_map; exact Hy. }
  split; [exact E1|].
  rewrite fit_cons.
  destruct (Z.to_nat (n_iters self)) as [|n] eqn:En; [lia|].
  cbn [fit_loop]. exact (f_equal (fun r => bind r _) E1).
Qed.

Lemma fit_rejects_longer_sample_witness :
  _update_weights (set_iterations (fit_init rand0 (__init__ (1#10) 5) [1; 1]) 1)
    (augment ([1; 1] :: [[0]] ++ [1; 2; 3] :: [])) [1; -1; 1] = Error IndexError /\
  fit rand0 (__init__ (1#10) 5) ([1; 1] :: [[0]] ++ [1; 2; 3] :: []) [1; -1; 1]
  = Error IndexError.
Proof.
  apply fit_rejects_longer_sample.
  - reflexivity.
  - repeat constructor; simpl; lia.
  - simpl; lia.
  - simpl; lia.
Defined.

(** ** Frame of [fit] in the store *)

Import Heap.

Lemma nth_error_list_set_other {A : Type} (l : list A) j j' (v : A) :
  j' <> j -> nth_error (list_set l j v) j' = nth_error l j'.
Proof.
  revert j j'; induction l as [|a l IH]; intros [|j] [|j'] H; simpl; auto;
    try congruence; apply IH; congruence.
Qed.

Lemma unchanged_below_refl n h : unchanged_below n h h.
Proof. intros l _; reflexivity. Qed.

Lemma unchanged_below_trans n h1 h2 h3 :
  unchanged_below n h1 h2 -> unchanged_below n h2 h3 -> unchanged_below n h1 h3.
Proof. intros A B l Hl; rewrite B, A; auto. Qed.

Lemma unchanged_below_mono m n h h' :
  (m <= n)%nat -> unchanged_below n h h' -> unchanged_below m h h'.
Proof. intros Hmn A l Hl; apply A; lia. Qed.

Lemma store_frame n h wl o : (n <= wl)%nat -> unchanged_below n h (store h wl o).
Proof. intros H l Hl; unfold store; apply nth_error_list_set_other; lia. Qed.

Lemma alloc_frame h o : unchanged_below (length h) h (snd (alloc h o)).
Proof. intros l Hl; simpl; now apply nth_error_app1. Qed.

Lemma update_row_frame n self h xs j e h' wl :
  self.(weights) = Some wl -> (n <= wl)%nat ->
  update_row self h xs j e = Ok h' -> unchanged_below n h h'.
Proof.
  intros Hw Hn; revert h j; induction xs as [|xv xs IH]; intros h j H; simpl in H.
  - inversion H; subst; apply unchanged_below_refl.
  - destruct (as_num xv) as [xj|]; simpl in H; [|discriminate].
    unfold get_weights in H; rewrite Hw in H; simpl in H.
    destruct (load h wl) as [w|]; simpl in H; [|discriminate].
    destruct (index w j) as [wv|]; simpl in H; [|discriminate].
    destruct (as_num wv) as [wj|]; simpl in H; [|discriminate].
    eapply unchanged_below_trans; [apply (store_frame n h wl); exact Hn|].
    eapply IH; exact H.
Qed.

Lemma update_loop_frame n self h X yl i ok h' ok' wl :
  self.(weights) = Some wl -> (n <= wl)%nat ->
  update_loop self h X yl i ok = Ok (h', ok') -> unchanged_below n h h'.
Proof.
  intros Hw Hn; revert h i ok; induction X as [|xv X IH]; intros h i ok H;
    simpl in H.
  - inversion H; subst; apply unchanged_below_refl.
  - destruct (as_ref xv) as [xl|]; simpl in H; [|discriminate].
    destruct (predict self h xl) as [yh|]; simpl in H; [|discriminate].
    destruct (load h yl) as [ys|]; simpl in H; [|discriminate].
    destruct (index ys i) as [yv|]; simpl in H; [|discriminate].
    destruct (as_num yv) as [yi|]; simpl in H; [|discriminate].
    destruct (negb _).
    + destruct (load h xl) as [xs|]; simpl in H; [|discriminate].
      destruct (update_row self h xs 0 (yi - yh)) as [h1|] eqn:E; simpl in H;
        [|discriminate].
      eapply unchanged_below_trans; [eapply update_row_frame; eauto|].
      eapply IH; exact H.
    + eapply IH; exact H.
Qed.

Lemma fit_loop_frame n k self h Xl yl s' h' wl :
  self.(weights) = Some wl -> (n <= wl)%nat ->
  fit_loop k self h Xl yl = Ok (s', h') -> unchanged_below n h h'.
Proof.
  intros Hw Hn; revert self h Hw; induction k as [|k IH]; intros self h Hw H;
    simpl in H.
  - inversion H; subst; apply unchanged_below_refl.
  - unfold _update_weights in H.
    destruct (load h Xl) as [X|]; simpl in H; [|discriminate].
    destruct (update_loop (set_iterations self (S (_iterations self))) h X yl 0 true)
      as [[h1 ok]|] eqn:E; simpl in H; [|discriminate].
    assert (U : unchanged_below n h h1)
      by exact (update_loop_frame n (set_iterations self (S (_iterations self))) h X yl 0 true h1 ok wl Hw Hn E).
    destruct (negb ok).
    + eapply unchanged_below_trans; [exact U|].
      exact (IH (set_iterations self (S (_iterations self))) h1 Hw H).
    + inversion H; subst; exact U.
Qed.

Lemma augment_rows_frame h X ls h' :
  augment_rows h X = Ok (ls, h') ->
  unchanged_below (length h) h h' /\ (length h <= length h')%nat.
Proof.
  revert h ls; induction X as [|xv X IH]; intros h ls H; simpl in H.
  - inversion H; subst; split; [apply unchanged_below_refl | lia].
  - destruct (as_ref xv) as [xl|]; simpl in H; [|discriminate].
    destruct (load h xl) as [x|]; simpl in H; [|discriminate].
    destruct (augment_rows (h ++ [VNum 1 :: x]) X) as [[ls1 h1]|] eqn:E;
      simpl in H; [|discriminate].
    inversion H; subst.
    destruct (IH _ _ E) as [U L]; rewrite length_app in L; simpl in L.
    split; [|lia].
    eapply unchanged_below_trans; [apply (alloc_frame h (VNum 1 :: x))|].
    eapply unchanged_below_mono; [|exact U]. rewrite length_app; simpl; lia.
Qed.

(** C10: [fit] writes only into list objects it allocates itself (the new
    [self.weights] and the augmented copies [[1] + x]); every object that
    existed before the call, in particular the caller's sample list, each
    of its feature lists and the label list, is unchanged when [fit]
    returns. *)
Theorem fit_keeps_caller_lists (rand : nat -> Q) (self s' : Heap.Perceptron)
  (h h' : heap) (Xl yl : nat) :
  Heap.fit rand self h Xl yl = Ok (s', h') ->
  unchanged_below (length h) h h' /\ load h' Xl = load h Xl /\
  ((yl < length h)%nat -> load h' yl = load h yl).
Proof.
  intros H.
  assert (U : unchanged_below (length h) h h').
  { unfold Heap.fit in H.
    destruct (load h Xl) as [X|]; simpl in H; [|discriminate].
    destruct (index X 0) as [v0|]; simpl in H; [|discriminate].
    destruct (as_ref v0) as [l0|]; simpl in H; [|discriminate].
    destruct (load h l0) as [x0|]; simpl in H; [|discriminate].
    set (w := map (fun k => VNum (rand k)) (seq 0 (length x0 + 1))) in H.
    destruct (augment_rows (h ++ [w]) X) as [[ls h2]|] eqn:E; simpl in H;
      [|discriminate].
    destruct (augment_rows_frame _ _ _ _ E) as [U2 L2].
    rewrite length_app in L2; simpl in L2.
    eapply unchanged_below_trans; [apply (alloc_frame h w)|].
    eapply unchanged_below_trans.
    { eapply unchanged_below_mono; [|exact U2]. rewrite length_app; simpl; lia. }
    eapply unchanged_below_trans.
    { eapply unchanged_below_mono; [|apply (alloc_frame h2 (map VRef ls))]. lia. }
    refine (fit_loop_frame _ _ _ _ _ _ _ _ (length h) _ _ H); [reflexivity | lia]. }
  split; [exact U|]. split.
  - unfold Heap.fit in H. unfold load, index in *.
    destruct (nth_error h Xl) eqn:E; simpl in H; [|discriminate].
    rewrite U; [now rewrite E|]. apply nth_error_Some; congruence.
  - intros Hy. unfold load, index; now rewrite U.
Qed.

Lemma fit_keeps_caller_lists_witness :
  exists s' h',
    Heap.fit rand0 (Heap.mkPerceptron (1#10) 5 0 None)
      [[VRef 1; VRef 2]; [VNum 2; VNum 2]; [VNum (-2); VNum (-2)]; [VNum 1; VNum (-1)]]
      0 3 = Ok (s', h') /\
    unchanged_below 4
      [[VRef 1; VRef 2]; [VNum 2; VNum 2]; [VNum (-2); VNum (-2)]; [VNum 1; VNum (-1)]] h'.
Proof.
  destruct (Heap.fit rand0 (Heap.mkPerceptron (1#10) 5 0 None)
      [[VRef 1; VRef 2]; [VNum 2; VNum 2]; [VNum (-2); VNum (-2)]; [VNum 1; VNum (-1)]]
      0 3) as [[s' h']|e] eqn:E.
  - exists s', h'. split; [reflexivity|].
    exact (proj1 (fit_keeps_caller_lists _ _ _ _ _ _ _ E)).
  - vm_compute in E; discriminate E.
Defined.

Lemma heap_fit_loop_weights k self h Xl yl s' h' :
  Heap.fit_loop k self h Xl yl = Ok (s', h') -> Heap.weights s' = Heap.weights self.
Proof.
  revert self h; induction k as [|k IH]; intros self h H; simpl in H.
  - inversion H; subst; reflexivity.
  - destruct (Heap._update_weights (Heap.set_iterations self (S (Heap._iterations self))) h Xl yl)
      as [[h1 ok]|]; simpl in H; [|discriminate].
    destruct ok; simpl in H.
    + apply IH in H; exact H.
    + inversion H; subst; reflexivity.
Qed.

(** X8: the list [self.weights] left by [fit] is the object [fit] allocated
    first, at the first address not in use before the call.  It is
    therefore none of the lists that existed before, the caller's samples
    and labels among them. *)
Theorem fit_weights_fresh (rand : nat -> Q) (self s' : Heap.Perceptron)
  (h h' : heap) (Xl yl : nat) :
  Heap.fit rand self h Xl yl = Ok (s', h') ->
  Heap.weights s' = Some (length h) /\
  (forall l, (l < length h)%nat -> Heap.weights s' <> Some l).
Proof.
  intros H.
  assert (W : Heap.weights s' = Some (length h)).
  { unfold Heap.fit in H.
    destruct (load h Xl) as [X|]; simpl in H; [|discriminate].
    destruct (index X 0) as [v0|]; simpl in H; [|discriminate].
    destruct (as_ref v0) as [l0|]; simpl in H; [|discriminate].
    destruct (load h l0) as [x0|]; simpl in H; [|discriminate].
    destruct (augment_rows _ X) as [[ls h2]|]; simpl in H; [|discriminate].
    apply heap_fit_loop_weights in H; exact H. }
  split; [exact W|]. intros l Hl; rewrite W; intros E; inversion E; lia.
Qed.

Lemma fit_weights_fresh_witness :
  exists s' h',
    Heap.fit rand0 (Heap.mkPerceptron (1#10) 5 0 None)
      [[VRef 1; VRef 2]; [VNum 2; VNum 2]; [VNum (-2); VNum (-2)]; [VNum 1; VNum (-1)]]
      0 3 = Ok (s', h') /\ Heap.weights s' = Some 4%nat.
Proof.
  destruct (Heap.fit rand0 (Heap.mkPerceptron (1#10) 5 0 None)
      [[VRef 1; VRef 2]; [VNum 2; VNum 2]; [VNum (-2); VNum (-2)]; [VNum 1; VNum (-1)]]
      0 3) as [[s' h']|e] eqn:E.
  - exists s', h'. split; [reflexivity|].
    exact (proj1 (fit_weights_fresh _ _ _ _ _ _ _ E)).
  - vm_compute in E; discriminate E.
Defined.
